(** * PilotListController (view_pilots.js)

    A shallow embedding of the AngularJS controller of the pilot list page and
    of the small part of its host it talks to: the controller's [$scope]
    object with its [$watch] registrations, the [$http] GET client with its
    promise reactions, and the page's [urls] configuration object.  The
    controller's three functions ([getData] and its two callbacks) and its
    body are transcribed statement by statement; the properties of the list
    controller are proved about them further down. *)

From stdpp Require Import base option list gmap strings.
From Stdlib Require Import ZArith.

Local Open Scope string_scope.
Local Open Scope list_scope.

(** ** JavaScript values *)

(** Function objects the controller creates and stores in a property. *)
Inductive func : Type :=
| FnGetData.

(** The values that can sit in a scope property or in a response body.
    Numbers that occur here are page numbers and sizes, hence integers. *)
#[warnings="-register-all"]
Inductive value : Type :=
| VUndefined
| VNull
| VBool (b : bool)
| VNum (n : Z)
| VStr (s : string)
| VArr (items : list value)
| VObj (fields : list (string * value))
| VFun (f : func).

(** A plain object is a finite map from property names to values. *)
Abbreviation object := (gmap string value).

(** [o.k]: reading a property that was never assigned yields [undefined]. *)
Definition get_prop (o : object) (k : string) : value :=
  default VUndefined (o !! k).

(** The response object [$http] hands to both callbacks. *)
Record response : Type := Response {
  data : value;
  status : Z
}.

Definition response_value (r : response) : value :=
  VObj [("data", data r); ("status", VNum (status r))].

(** The page configuration object [urls]; only the field read by this
    controller is kept. *)
Record Urls : Type := { pilots_json : string }.

(** ** Computations: state passing with exceptions *)

Inductive completion (A : Type) : Type :=
| Normal (a : A)
| Throw (e : value).
Arguments Normal {A} a.
Arguments Throw {A} e.

(** A computation over a store [S]; the store survives a throw. *)
Definition Eff (S A : Type) : Type := S → completion A * S.

#[global] Instance eff_ret {S} : MRet (Eff S) :=
  λ A a s, (Normal a, s).

#[global] Instance eff_bind {S} : MBind (Eff S) :=
  λ A B k m s,
    match m s with
    | (Normal a, s') => k a s'
    | (Throw e, s') => (Throw e, s')
    end.

Definition throw {S A} (e : value) : Eff S A := λ s, (Throw e, s).

(** [o.k = v] on the store itself. *)
Definition assign (k : string) (v : value) : Eff object value :=
  λ o, (Normal v, <[k := v]> o).

Definition read (k : string) : Eff object value :=
  λ o, (Normal (get_prop o k), o).

(** ** The host: scope, in-flight requests, the wire *)

(** A callback closes over [$scope] only: it receives the response and acts
    on the scope. *)
Definition callback : Type := response → Eff object value.

(** One [.then(onFulfilled, onRejected)] registration. *)
Record reaction : Type := Reaction {
  on_fulfilled : option callback;
  on_rejected : option callback
}.

(** How the transport settles a request. *)
Inductive settlement : Type :=
| Fulfilled (r : response)
| Rejected (r : response).

Record world : Type := World {
  urls : Urls;                         (* the global [urls] *)
  scope : object;                      (* own properties of [$scope] *)
  watchers : list (string * value);    (* [$watch] registrations, in order *)
  pending : gmap nat (list reaction);  (* requests in flight and their reactions *)
  next_id : nat;                       (* next request handle *)
  wire : list string;                  (* GET requests sent, oldest first *)
  settled : list (nat * settlement);   (* settled requests, latest first *)
  uncaught : list value                (* rejections and throws nobody handled *)
}.

Definition with_scope (f : object → object) (w : world) : world :=
  {| urls := urls w; watchers := watchers w; scope := f (scope w);
     pending := pending w; next_id := next_id w; wire := wire w;
     settled := settled w; uncaught := uncaught w |}.

Definition with_uncaught (e : value) (w : world) : world :=
  {| urls := urls w; watchers := watchers w; scope := scope w;
     pending := pending w; next_id := next_id w; wire := wire w;
     settled := settled w; uncaught := uncaught w ++ [e] |}.

(** Run a scope computation inside the host. *)
Definition on_scope {A} (m : Eff object A) : Eff world A :=
  λ w, let '(c, o) := m (scope w) in (c, with_scope (λ _, o) w).

(** Reading the global [urls]. *)
Definition global_urls : Eff world Urls :=
  λ w, (Normal (urls w), w).

(** [$http.get(url)]: sends the request and returns its promise. *)
Definition http_get (url : string) : Eff world nat :=
  λ w, (Normal (next_id w),
        {| urls := urls w; watchers := watchers w; scope := scope w;
           pending := <[next_id w := []]> (pending w);
           next_id := S (next_id w); wire := wire w ++ [url];
           settled := settled w; uncaught := uncaught w |}).

(** [p.then(s, e)] on a promise still in flight: the reaction is queued
    behind the ones already registered.  The derived promise is dropped by
    every caller in this file, so it is not represented. *)
Definition promise_then (p : nat) (s e : option callback) : Eff world unit :=
  λ w, (Normal tt,
        {| urls := urls w; watchers := watchers w; scope := scope w;
           pending := alter (λ rs, rs ++ [Reaction s e]) p (pending w);
           next_id := next_id w; wire := wire w;
           settled := settled w; uncaught := uncaught w |}).

(** [$scope.$watch(k, listener)]: from now on [listener] is called after
    every write of the scope field [k]. *)
Definition watch (k : string) (listener : value) : Eff world value :=
  λ w, (Normal VUndefined,
        {| urls := urls w; scope := scope w;
           watchers := watchers w ++ [(k, listener)];
           pending := pending w; next_id := next_id w; wire := wire w;
           settled := settled w; uncaught := uncaught w |}).

(** A callback runs against the scope; if it throws, the throw is caught by
    the promise machinery and ends up with the host, not with any caller. *)
Definition run_callback (cb : callback) (r : response) (w : world) : world :=
  match cb r (scope w) with
  | (Normal _, o) => with_scope (λ _, o) w
  | (Throw e, o) => with_uncaught e (with_scope (λ _, o) w)
  end.

Definition react (how : settlement) (rx : reaction) (w : world) : world :=
  match how with
  | Fulfilled r =>
      match on_fulfilled rx with
      | Some cb => run_callback cb r w
      | None => w
      end
  | Rejected r =>
      match on_rejected rx with
      | Some cb => run_callback cb r w
      | None => with_uncaught (response_value r) w
      end
  end.

(** The transport settles request [id]: it leaves the in-flight table, the
    settlement is logged, and its reactions run in registration order.  A
    handle that is not in flight has nothing to deliver. *)
Definition settle (id : nat) (how : settlement) (w : world) : world :=
  match pending w !! id with
  | None => w
  | Some rxs =>
      foldl (λ w' rx, react how rx w')
            {| urls := urls w; watchers := watchers w; scope := scope w;
               pending := delete id (pending w);
               next_id := next_id w; wire := wire w;
               settled := (id, how) :: settled w; uncaught := uncaught w |}
            rxs
  end.

(** ** The controller, from view_pilots.js *)

(** [function(response) { $scope.pilots = response.data; }] *)
Definition getData_success (response : response) : Eff object value :=
  assign "pilots" (data response) ;;
  mret VUndefined.

(** [function(response) { }] *)
Definition getData_unsuccessful (response : response) : Eff object value :=
  mret VUndefined.

(** [$scope.getData = function () { $http.get(urls.pilots_json).then(..., ...); }] *)
Definition getData : Eff world value :=
  urls ← global_urls;
  p ← http_get (pilots_json urls);
  promise_then p (Some getData_success) (Some getData_unsuccessful) ;;
  mret VUndefined.

(** Calling a value: only function objects can be called. *)
Definition call (f : value) : Eff world value :=
  match f with
  | VFun FnGetData => getData
  | _ => throw (VStr "TypeError: not a function")
  end.

(** [$scope.k()] *)
Definition call_method (k : string) : Eff world value :=
  f ← on_scope (read k);
  call f.

(** A function body is its statements in order; falling off the end returns
    [undefined]. *)
Fixpoint block (stmts : list (Eff world value)) : Eff world value :=
  match stmts with
  | [] => mret VUndefined
  | stmt :: rest => stmt ;; block rest
  end.

(** The statements of the controller body, lines 2 to 13 of the file. *)
Definition PilotListController_body : list (Eff world value) :=
  [ on_scope (assign "getData" (VFun FnGetData));
    on_scope (assign "currentPage" (VNum 1));
    on_scope (assign "pageSize" (VStr "50"));
    call_method "getData" ].

(** The controller body. *)
Definition PilotListController : Eff world value :=
  block PilotListController_body.

(** ** The digest after a write by the view *)

(** A listener that throws is reported to the host and the digest goes
    on. *)
Definition guarded (m : Eff world value) : Eff world value :=
  λ w, match m w with
       | (Normal v, w') => (Normal v, w')
       | (Throw e, w') => (Normal VUndefined, with_uncaught e w')
       end.

(** Call, in registration order, the listeners that watch field [k]. *)
Fixpoint notify (ws : list (string * value)) (k : string) : Eff world value :=
  match ws with
  | [] => mret VUndefined
  | (k', listener) :: rest =>
      (if decide (k' = k) then guarded (call listener) else mret VUndefined) ;;
      notify rest k
  end.

Definition digest (k : string) : Eff world value :=
  λ w, notify (watchers w) k w.

(** A write of a scope field through the view's binding: the assignment,
    then the digest it sets off. *)
Definition view_write (k : string) (v : value) : Eff world value :=
  on_scope (assign k v) ;;
  digest k.

(** ** The page's life: view actions and transport events *)

(** What Angular starts the controller on: a new scope without properties,
    nothing in flight. *)
Definition boot (u : Urls) : world :=
  {| urls := u; scope := ∅; watchers := []; pending := ∅; next_id := 0;
     wire := []; settled := []; uncaught := [] |}.

(** Instantiating the controller runs its body once. *)
Definition initialize (u : Urls) : completion value * world :=
  PilotListController (boot u).

(** Modelled from the spec: [setPage(page)], which view_pilots.js does not
    define.  The specification gives it as the write of the exposed
    [currentPage] field by the view's pagination control, which lives in the
    page template: [$scope.currentPage = p] through the binding, followed by
    the digest that write sets off. *)
Definition setPage (p : Z) : Eff world value :=
  view_write "currentPage" (VNum p).

(** Modelled from the spec: the write of the exposed [pageSize] field by
    the view, which view_pilots.js does not contain either. *)
Definition setPageSize (v : value) : Eff world value :=
  view_write "pageSize" v.

Inductive event : Type :=
| ViewRefresh                            (* the view calls [$scope.getData()] *)
| ViewSetPage (p : Z)
| ViewSetPageSize (v : value)
| NetResolve (id : nat) (r : response)   (* the transport fulfils request [id] *)
| NetReject (id : nat) (r : response).   (* the transport rejects request [id] *)

Definition step (ev : event) (w : world) : world :=
  match ev with
  | ViewRefresh => snd (call_method "getData" w)
  | ViewSetPage p => snd (setPage p w)
  | ViewSetPageSize v => snd (setPageSize v w)
  | NetResolve id r => settle id (Fulfilled r) w
  | NetReject id r => settle id (Rejected r) w
  end.

Fixpoint run (evs : list event) (w : world) : world :=
  match evs with
  | [] => w
  | ev :: rest => run rest (step ev w)
  end.

(** The payload of the latest fulfilled request in a settlement log. *)
Fixpoint last_success (log : list (nat * settlement)) : option value :=
  match log with
  | [] => None
  | (_, Fulfilled r) :: _ => Some (data r)
  | (_, Rejected _) :: rest => last_success rest
  end.

Definition is_resolve (ev : event) : bool :=
  match ev with
  | NetResolve _ _ => true
  | _ => false
  end.

(** What the view reads. *)
Definition pilots (w : world) : value := get_prop (scope w) "pilots".
Definition currentPage (w : world) : value := get_prop (scope w) "currentPage".
Definition pageSize (w : world) : value := get_prop (scope w) "pageSize".

(** The state in which the first statement of a body that puts a request
    on the wire starts; none if the body sends nothing or throws before. *)
Fixpoint sending_state
    (stmts : list (Eff world value)) (w : world) : option world :=
  match stmts with
  | [] => None
  | stmt :: rest =>
      match stmt w with
      | (c, w') =>
          if decide (wire w' = wire w)
          then match c with
               | Normal _ => sending_state rest w'
               | Throw _ => None
               end
          else Some w
      end
  end.

(** The state from which the controller body issues its fetch. *)
Definition before_fetch (u : Urls) : world :=
  default (boot u) (sending_state PilotListController_body (boot u)).

(** Whether a response body is a sequence. *)
Definition is_array (v : value) : bool :=
  match v with
  | VArr _ => true
  | _ => false
  end.

(** ** Sample data *)

Definition demo_urls : Urls := {| pilots_json := "/standings/pilots.json" |}.
Definition alice : value := VObj [("id", VNum 1); ("name", VStr "Alice")].
Definition bob : value := VObj [("id", VNum 2); ("name", VStr "Bob")].

Definition two_pilots : response := Response (VArr [alice; bob]) 200.
Definition server_error : response := Response VNull 500.

Definition error_body : response :=
  Response (VObj [("error", VStr "permission denied")]) 200.

(** The world right after the controller body has run on [demo_urls]. *)
Definition demo_world : world := snd (initialize demo_urls).

(** The same page once its first request has brought two pilots. *)
Definition loaded_world : world := run [NetResolve 0 two_pilots] demo_world.

(** The first request fails, the view refreshes and changes page, the
    second request fails too, and the view changes the page size. *)
Definition failing_trace : list event :=
  [NetReject 0 server_error; ViewRefresh; ViewSetPage 3;
   NetReject 1 server_error; ViewSetPageSize (VStr "100")].

(** The reaction [getData] registers on the promise of its request. *)
Definition getData_reaction : reaction :=
  Reaction (Some getData_success) (Some getData_unsuccessful).

(** ** The invariant of the running page *)

(** Every request in flight carries the reaction of [getData] and nothing
    else. *)
Definition only_getData (w : world) : Prop :=
  map_Forall (λ _ rxs, rxs = [getData_reaction]) (pending w).

Record consistent (w : world) : Prop := Consistent {
  cons_pending : only_getData w;
  cons_pilots : scope w !! "pilots" = last_success (settled w);
  cons_getData : scope w !! "getData" = Some (VFun FnGetData);
  cons_uncaught : uncaught w = [];
  cons_watchers : watchers w = []
}.

(** ** Reading a trace *)

(** The page of [u] after the events [evs]. *)
Definition reached (u : Urls) (evs : list event) : world :=
  run evs (snd (initialize u)).

(** How often the view has called [$scope.getData()]. *)
Fixpoint refreshes (evs : list event) : nat :=
  match evs with
  | [] => 0
  | ViewRefresh :: rest => S (refreshes rest)
  | _ :: rest => refreshes rest
  end.

(** The page the view wrote last, [page] if it wrote none. *)
Fixpoint page_after (evs : list event) (page : value) : value :=
  match evs with
  | [] => page
  | ViewSetPage p :: rest => page_after rest (VNum p)
  | _ :: rest => page_after rest page
  end.

(** The page size the view wrote last, [size] if it wrote none. *)
Fixpoint size_after (evs : list event) (size : value) : value :=
  match evs with
  | [] => size
  | ViewSetPageSize v :: rest => size_after rest v
  | _ :: rest => size_after rest size
  end.

Definition is_write (ev : event) : bool :=
  match ev with
  | ViewSetPage _ | ViewSetPageSize _ => true
  | _ => false
  end.

(** The scope properties the controller body assigns. *)
Definition controller_fields : gset string :=
  {[ "getData"; "currentPage"; "pageSize" ]}.

(** The bookkeeping of requests: handles are handed out in order, a request
    is in flight or settled and never both, and every GET went to
    [urls.pilots_json]. *)
Record accounted (w : world) : Prop := Accounted {
  acc_fresh : ∀ id, is_Some (pending w !! id) → id < next_id w;
  acc_settled :
    ∀ id, id ∈ (settled w).*1 → id < next_id w ∧ pending w !! id = None;
  acc_nodup : NoDup (settled w).*1;
  acc_total : size (pending w) + length (settled w) = next_id w;
  acc_wire : wire w = replicate (next_id w) (pilots_json (urls w))
}.

(** The property that holds the list: present once a request has been
    fulfilled. *)
Definition list_field (w : world) : gset string :=
  match last_success (settled w) with
  | Some _ => {[ "pilots" ]}
  | None => ∅
  end.

(** A refresh that fails on a page that already shows two pilots. *)
Definition late_failure : list event :=
  [ViewRefresh; ViewSetPage 2; NetReject 1 server_error].

(** * Properties *)

(** ** What a call of [getData] and a settlement of its request do *)

Section Equations.
Context (w : world).

Lemma getData_unfold :
  getData w =
  (Normal VUndefined,
   {| urls := urls w; watchers := watchers w; scope := scope w;
      pending := <[next_id w := [getData_reaction]]> (pending w);
      next_id := S (next_id w);
      wire := wire w ++ [pilots_json (urls w)];
      settled := settled w; uncaught := uncaught w |}).
Proof.
  unfold getData, global_urls, http_get, promise_then.
  unfold mbind, eff_bind, mret, eff_ret. cbn. by rewrite alter_insert_eq.
Qed.

Lemma getData_returns : fst (getData w) = Normal VUndefined.
Proof. by rewrite getData_unfold. Qed.

Lemma getData_scope : scope (snd (getData w)) = scope w.
Proof. by rewrite getData_unfold. Qed.

Lemma getData_pending :
  pending (snd (getData w)) = <[next_id w := [getData_reaction]]> (pending w).
Proof. by rewrite getData_unfold. Qed.

Lemma getData_next_id : next_id (snd (getData w)) = S (next_id w).
Proof. by rewrite getData_unfold. Qed.

Lemma getData_wire :
  wire (snd (getData w)) = wire w ++ [pilots_json (urls w)].
Proof. by rewrite getData_unfold. Qed.

Lemma getData_uncaught : uncaught (snd (getData w)) = uncaught w.
Proof. by rewrite getData_unfold. Qed.

Lemma getData_settled : settled (snd (getData w)) = settled w.
Proof. by rewrite getData_unfold. Qed.

Lemma settle_not_pending id how :
  pending w !! id = None → settle id how w = w.
Proof. intros H. unfold settle. by rewrite H. Qed.

Lemma settle_fulfilled id r :
  pending w !! id = Some [getData_reaction] →
  settle id (Fulfilled r) w =
  {| urls := urls w; watchers := watchers w;
     scope := <["pilots" := data r]> (scope w);
     pending := delete id (pending w); next_id := next_id w;
     wire := wire w; settled := (id, Fulfilled r) :: settled w;
     uncaught := uncaught w |}.
Proof. intros H. unfold settle. by rewrite H. Qed.

Lemma settle_rejected id r :
  pending w !! id = Some [getData_reaction] →
  settle id (Rejected r) w =
  {| urls := urls w; watchers := watchers w; scope := scope w;
     pending := delete id (pending w); next_id := next_id w;
     wire := wire w; settled := (id, Rejected r) :: settled w;
     uncaught := uncaught w |}.
Proof. intros H. unfold settle. by rewrite H. Qed.

(** The request a call of [getData] has just sent carries exactly the
    reaction of [getData], whatever else is in flight. *)
Lemma getData_own_request :
  pending (snd (getData w)) !! next_id w = Some [getData_reaction].
Proof. rewrite getData_pending. apply lookup_insert_eq. Qed.
End Equations.

(** ** Success and failure of one refresh *)

(** C2. Whatever the state before, when [getData] is called and its request
    is fulfilled with the sequence [items], the view's [pilots] is exactly
    [items] afterwards: same elements in the same order, the former value
    gone. *)
Theorem refresh_success_replaces (w : world) (items : list value) (st : Z) :
  let w1 := snd (getData w) in
  let w2 := settle (next_id w) (Fulfilled (Response (VArr items) st)) w1 in
  pilots w2 = VArr items ∧ scope w2 !! "pilots" = Some (VArr items).
Proof.
  intros w1 w2. subst w1 w2.
  rewrite (settle_fulfilled _ _ _ (getData_own_request w)).
  unfold pilots, get_prop; cbn. by rewrite lookup_insert_eq.
Qed.

(** C3. Whatever the state before, when [getData] is called and its request
    is rejected, the call itself returns normally, the scope (and with it
    [pilots]) is what it was before the call, and nothing is left uncaught
    with the host. *)
Theorem refresh_failure_absorbed (w : world) (r : response) :
  let w1 := snd (getData w) in
  let w2 := settle (next_id w) (Rejected r) w1 in
  fst (getData w) = Normal VUndefined ∧
  scope w2 = scope w ∧
  pilots w2 = pilots w ∧
  uncaught w2 = uncaught w.
Proof.
  intros w1 w2. subst w1 w2.
  rewrite (settle_rejected _ _ _ (getData_own_request w)).
  unfold pilots. cbn.
  rewrite getData_returns, getData_scope, getData_uncaught. done.
Qed.

(** C6. A call of [getData] and the settlement of its request, fulfilled or
    rejected with any response, leave [currentPage] and [pageSize] as they
    were. *)
Theorem refresh_keeps_pagination (w : world) (how : settlement) :
  let w1 := snd (getData w) in
  let w2 := settle (next_id w) how w1 in
  (scope w1 !! "currentPage" = scope w !! "currentPage" ∧
   scope w1 !! "pageSize" = scope w !! "pageSize") ∧
  (scope w2 !! "currentPage" = scope w !! "currentPage" ∧
   scope w2 !! "pageSize" = scope w !! "pageSize") ∧
  currentPage w2 = currentPage w ∧ pageSize w2 = pageSize w.
Proof.
  intros w1 w2. subst w1 w2. unfold currentPage, pageSize, get_prop.
  rewrite getData_scope. split; [done|].
  destruct how as [r|r].
  - rewrite (settle_fulfilled _ _ _ (getData_own_request w)). cbn.
    rewrite getData_scope, !lookup_insert_ne by done. done.
  - rewrite (settle_rejected _ _ _ (getData_own_request w)). cbn.
    rewrite getData_scope. done.
Qed.

(** ** Two refreshes in flight *)

(** C9. After two calls of [getData] with neither request settled, both
    requests are in flight under distinct handles; when both are fulfilled,
    [pilots] ends as the payload of the one fulfilled last, in either order,
    and the request still outstanding after the first fulfilment stays in
    flight. *)
Theorem last_resolved_wins (w : world) (r1 r2 : response) :
  let i1 := next_id w in
  let w1 := snd (getData w) in
  let i2 := next_id w1 in
  let w2 := snd (getData w1) in
  i1 ≠ i2 ∧
  pending w2 !! i1 = Some [getData_reaction] ∧
  pending w2 !! i2 = Some [getData_reaction] ∧
  wire w2 = wire w ++ [pilots_json (urls w); pilots_json (urls w)] ∧
  pending (settle i2 (Fulfilled r2) w2) !! i1 = Some [getData_reaction] ∧
  pending (settle i1 (Fulfilled r1) w2) !! i2 = Some [getData_reaction] ∧
  pilots (settle i1 (Fulfilled r1) (settle i2 (Fulfilled r2) w2)) = data r1 ∧
  pilots (settle i2 (Fulfilled r2) (settle i1 (Fulfilled r1) w2)) = data r2.
Proof.
  intros i1 w1 i2 w2.
  assert (Hne : i1 ≠ i2).
  { subst i1 i2 w1. rewrite getData_next_id. lia. }
  assert (H2 : pending w2 !! i2 = Some [getData_reaction])
    by apply getData_own_request.
  assert (H1 : pending w2 !! i1 = Some [getData_reaction]).
  { subst w2. rewrite getData_pending. fold i2.
    rewrite lookup_insert_ne by done. apply getData_own_request. }
  assert (Hw : wire w2 = wire w ++ [pilots_json (urls w); pilots_json (urls w)]).
  { subst w2 w1. rewrite !getData_wire, getData_unfold. cbn.
    by rewrite <- app_assoc. }
  assert (H12 : pending (settle i2 (Fulfilled r2) w2) !! i1
                = Some [getData_reaction]).
  { rewrite (settle_fulfilled _ _ _ H2). cbn. by rewrite lookup_delete_ne. }
  assert (H21 : pending (settle i1 (Fulfilled r1) w2) !! i2
                = Some [getData_reaction]).
  { rewrite (settle_fulfilled _ _ _ H1). cbn. by rewrite lookup_delete_ne. }
  repeat split; try done.
  - rewrite (settle_fulfilled _ _ _ H12). unfold pilots, get_prop. cbn.
    by rewrite lookup_insert_eq.
  - rewrite (settle_fulfilled _ _ _ H21). unfold pilots, get_prop. cbn.
    by rewrite lookup_insert_eq.
Qed.

(** ** The controller body *)

Lemma initialize_unfold (u : Urls) :
  initialize u =
  (Normal VUndefined,
   {| urls := u; watchers := [];
      scope := <["pageSize" := VStr "50"]>
                 (<["currentPage" := VNum 1]>
                    (<["getData" := VFun FnGetData]> ∅));
      pending := {[ 0 := [getData_reaction] ]};
      next_id := 1; wire := [pilots_json u];
      settled := []; uncaught := [] |}).
Proof. reflexivity. Qed.

Lemma consistent_initialize (u : Urls) : consistent (snd (initialize u)).
Proof.
  rewrite initialize_unfold. split; cbn; try done.
  unfold only_getData; cbn. by apply map_Forall_singleton.
Qed.

(** ** The invariant is kept by every event *)

(** With no listener registered, a write by the view is the bare
    assignment. *)
Lemma view_write_quiet (w : world) (k : string) (v : value) :
  watchers w = [] →
  view_write k v w = (Normal VUndefined, snd (on_scope (assign k v) w)).
Proof.
  intros Hq. unfold view_write, digest, on_scope, assign, mbind, eff_bind.
  cbn. by rewrite Hq.
Qed.

Lemma setPage_quiet (w : world) (Hw : consistent w) (p : Z) :
  snd (setPage p w) = snd (on_scope (assign "currentPage" (VNum p)) w).
Proof.
  unfold setPage. by rewrite (view_write_quiet _ _ _ (cons_watchers _ Hw)).
Qed.

Lemma setPageSize_quiet (w : world) (Hw : consistent w) (v : value) :
  snd (setPageSize v w) = snd (on_scope (assign "pageSize" v) w).
Proof.
  unfold setPageSize.
  by rewrite (view_write_quiet _ _ _ (cons_watchers _ Hw)).
Qed.

Ltac quiet_writes Hw :=
  rewrite ?(setPage_quiet _ Hw), ?(setPageSize_quiet _ Hw).

Section Preservation.
Context (w : world) (Hw : consistent w).

Lemma call_getData : call_method "getData" w = getData w.
Proof.
  unfold call_method, on_scope, read, get_prop, mbind, eff_bind.
  rewrite (cons_getData _ Hw). cbn. by destruct w.
Qed.

Lemma consistent_getData : consistent (snd (getData w)).
Proof.
  destruct Hw as [Hp Hs Hg Hu Hq]. rewrite getData_unfold.
  split; cbn; try done.
  unfold only_getData; cbn. by apply map_Forall_insert_2.
Qed.

Lemma pending_getData id rxs :
  pending w !! id = Some rxs → rxs = [getData_reaction].
Proof.
  intros H. exact (map_Forall_lookup_1 _ _ _ _ (cons_pending _ Hw) H).
Qed.

Lemma consistent_settle id how : consistent (settle id how w).
Proof.
  destruct (pending w !! id) as [rxs|] eqn:Hid.
  - rewrite (pending_getData _ _ Hid) in Hid.
    destruct Hw as [Hp Hs Hg Hu Hq].
    destruct how as [r|r];
      [rewrite (settle_fulfilled _ _ _ Hid)
      |rewrite (settle_rejected _ _ _ Hid)];
      (split; cbn; [by apply map_Forall_delete|..]; try done).
    + by rewrite lookup_insert_eq.
    + by rewrite lookup_insert_ne.
  - by rewrite settle_not_pending.
Qed.

Lemma consistent_assign k v :
  k ≠ "pilots" → k ≠ "getData" →
  consistent (snd (on_scope (assign k v) w)).
Proof.
  intros H1 H2. destruct Hw as [Hp Hs Hg Hu Hq].
  split; cbn; try done; by rewrite lookup_insert_ne.
Qed.

Lemma consistent_step ev : consistent (step ev w).
Proof.
  destruct ev as [|p|v|id r|id r]; cbn [step]; quiet_writes Hw.
  - rewrite call_getData. apply consistent_getData.
  - by apply consistent_assign.
  - by apply consistent_assign.
  - apply consistent_settle.
  - apply consistent_settle.
Qed.

(** Apart from a fulfilment, no event assigns [pilots]. *)
Lemma step_keeps_pilots ev :
  is_resolve ev = false →
  scope (step ev w) !! "pilots" = scope w !! "pilots".
Proof.
  destruct ev as [|p|v|id r|id r]; cbn [step is_resolve];
    quiet_writes Hw; intros He; try done.
  - by rewrite call_getData, getData_scope.
  - cbn. by rewrite lookup_insert_ne.
  - cbn. by rewrite lookup_insert_ne.
  - destruct (pending w !! id) as [rxs|] eqn:Hid.
    + rewrite (pending_getData _ _ Hid) in Hid.
      by rewrite (settle_rejected _ _ _ Hid).
    + by rewrite settle_not_pending.
Qed.
End Preservation.

Lemma consistent_run (evs : list event) :
  ∀ w, consistent w → consistent (run evs w).
Proof.
  induction evs as [|ev rest IH]; intros w Hw; cbn [run]; [done|].
  apply IH. by apply consistent_step.
Qed.

Lemma run_keeps_pilots (evs : list event) :
  ∀ w, consistent w →
       forallb (λ ev, negb (is_resolve ev)) evs = true →
       scope (run evs w) !! "pilots" = scope w !! "pilots".
Proof.
  induction evs as [|ev rest IH]; intros w Hw Hevs; cbn [run]; [done|].
  cbn [forallb] in Hevs. apply andb_prop in Hevs as [Hev Hrest].
  apply negb_true_iff in Hev.
  rewrite IH by (by try apply consistent_step).
  by apply step_keeps_pilots.
Qed.

(** ** Pagination writes *)

(** A listener on [currentPage] would turn a page change into a fetch; the
    controller registers none. *)
Example watched_page_would_fetch :
  wire (snd (setPage 3 (snd (watch "currentPage" (VFun FnGetData) demo_world))))
  = [pilots_json demo_urls; pilots_json demo_urls].
Proof. reflexivity. Qed.

(** C7. In every state the page can reach, writing page [p] through the
    view makes [currentPage] equal to [p]; the digest it sets off finds no
    listener of the controller, so nothing is sent and no request in flight
    is touched; [pilots] and [pageSize] stay as they were. *)
Theorem setPage_frame (u : Urls) (evs : list event) (p : Z) :
  let w := reached u evs in
  let w' := snd (setPage p w) in
  fst (setPage p w) = Normal VUndefined ∧
  currentPage w' = VNum p ∧
  wire w' = wire w ∧ pending w' = pending w ∧ next_id w' = next_id w ∧
  scope w' !! "pilots" = scope w !! "pilots" ∧
  scope w' !! "pageSize" = scope w !! "pageSize" ∧
  pilots w' = pilots w ∧ pageSize w' = pageSize w.
Proof.
  intros w w'. subst w'.
  assert (Hw : consistent w)
    by apply consistent_run, consistent_initialize.
  unfold setPage at 1.
  rewrite (view_write_quiet _ _ _ (cons_watchers _ Hw)).
  rewrite (setPage_quiet _ Hw).
  unfold currentPage, pilots, pageSize, get_prop. cbn.
  rewrite lookup_insert_eq, !lookup_insert_ne by done. done.
Qed.

(** ** The state after the controller body *)

Example demo_pilots_undefined : pilots demo_world = VUndefined.
Proof. reflexivity. Qed.

Example demo_pageSize_text : pageSize demo_world = VStr "50".
Proof. reflexivity. Qed.

Example demo_scenario :
  pilots loaded_world = VArr [alice; bob] ∧
  currentPage loaded_world = VNum 1 ∧ pageSize loaded_world = VStr "50".
Proof. by repeat split. Qed.

(** C1, as the specification words it, fails on the page of [demo_urls]:
    right after the controller body [pilots] is not the empty sequence and
    [pageSize] is not the number 50. *)
Lemma initial_state_not_as_specified :
  ¬ (pilots demo_world = VArr [] ∧
     currentPage demo_world = VNum 1 ∧
     pageSize demo_world = VNum 50).
Proof. intros (H & _ & _). vm_compute in H. discriminate. Qed.

(** C1, amended. Right after the controller body, with its request in flight
    and nothing settled, the scope has no [pilots] property (the view reads
    [undefined]), [currentPage] is the number 1 and [pageSize] is the text
    ['50']. *)
Theorem state_after_controller_body (u : Urls) :
  let w := snd (initialize u) in
  settled w = [] ∧ pending w = {[ 0 := [getData_reaction] ]} ∧
  scope w !! "pilots" = None ∧ pilots w = VUndefined ∧
  currentPage w = VNum 1 ∧
  pageSize w = VStr "50".
Proof. cbv zeta. rewrite initialize_unfold. by repeat split. Qed.

(** C8, as the specification words it, fails on the page of [demo_urls]:
    the default the body puts in [pageSize] before it calls [getData] is not
    the number 50. *)
Lemma default_pageSize_not_a_number :
  ¬ (let w0 := before_fetch demo_urls in
     let w := snd (initialize demo_urls) in
     sending_state PilotListController_body (boot demo_urls) = Some w0 ∧
     (currentPage w0 = VNum 1 ∧ pageSize w0 = VNum 50) ∧
     wire w0 = [] ∧
     initialize demo_urls = (call_method "getData" ;; mret VUndefined) w0 ∧
     wire w = [pilots_json demo_urls] ∧
     fst (initialize demo_urls) = Normal VUndefined).
Proof. intros (_ & (_ & H) & _). vm_compute in H. discriminate. Qed.

(** C8, amended. The first statement of the controller body that sends
    anything starts in a state where [currentPage] is already the number 1
    and [pageSize] already the text ['50'], with nothing sent and nothing in
    flight; what is left of the body from there is the one call
    [$scope.getData()], which sends exactly one GET, to [urls.pilots_json];
    the body returns [undefined]. *)
Theorem initialize_defaults_then_one_get (u : Urls) :
  let w0 := before_fetch u in
  let w := snd (initialize u) in
  sending_state PilotListController_body (boot u) = Some w0 ∧
  (currentPage w0 = VNum 1 ∧ pageSize w0 = VStr "50") ∧
  (wire w0 = [] ∧ pending w0 = ∅) ∧
  initialize u = (call_method "getData" ;; mret VUndefined) w0 ∧
  (wire w = [pilots_json u] ∧ pending w = {[ 0 := [getData_reaction] ]}) ∧
  fst (initialize u) = Normal VUndefined.
Proof. cbv zeta. rewrite initialize_unfold. by repeat split. Qed.

(** ** Payloads that are not sequences *)

(** C4, as the specification words it, fails: on a page showing two pilots,
    a refresh fulfilled with a body that is an object, not a sequence,
    changes [pilots]. *)
Lemma malformed_payload_is_stored :
  is_array (data error_body) = false ∧
  pilots (settle (next_id loaded_world) (Fulfilled error_body)
            (snd (getData loaded_world)))
  ≠ pilots loaded_world.
Proof. split; [reflexivity|]. vm_compute. discriminate. Qed.

(** C4, amended. The controller never looks at the shape of a body.  A
    request the client rejects leaves [pilots] as it was; a request the
    client fulfils puts the response's [data] in [pilots] as it is, sequence
    or not. *)
Theorem refresh_payload_not_inspected (w : world) (r : response) :
  let w1 := snd (getData w) in
  pilots (settle (next_id w) (Rejected r) w1) = pilots w ∧
  pilots (settle (next_id w) (Fulfilled r) w1) = data r.
Proof.
  cbn. rewrite (settle_rejected _ _ _ (getData_own_request w)).
  rewrite (settle_fulfilled _ _ _ (getData_own_request w)).
  unfold pilots, get_prop. cbn.
  by rewrite getData_scope, lookup_insert_eq.
Qed.

(** ** What the view can ever see in [pilots] *)

(** C5, as the specification words it, fails in the very first state of the
    page of [demo_urls]: no request has been fulfilled and [pilots] is not
    the empty sequence. *)
Lemma initial_pilots_not_empty_sequence :
  ¬ (let w := run [] demo_world in
     pilots w = VArr [] ∨
     ∃ d, last_success (settled w) = Some d ∧ pilots w = d).
Proof.
  intros [H | (d & H & _)]; vm_compute in H; discriminate.
Qed.

(** C5, amended. After the controller body and any sequence of refreshes,
    fulfilments, rejections and pagination writes, the [pilots] property is
    the [data] of the request fulfilled last, and is absent (the view reads
    [undefined]) when no request has been fulfilled. *)
Theorem pilots_is_last_success (u : Urls) (evs : list event) :
  let w := run evs (snd (initialize u)) in
  scope w !! "pilots" = last_success (settled w) ∧
  pilots w = default VUndefined (last_success (settled w)).
Proof.
  intros w.
  destruct (consistent_run evs _ (consistent_initialize u)) as [_ Hs _ _ _].
  fold w in Hs. unfold pilots, get_prop. by rewrite Hs.
Qed.

(** C10. As long as no request has been fulfilled, that is after the
    controller body and any sequence of refreshes, rejections and pagination
    writes, the scope has no [pilots] property: the view reads [undefined],
    not an empty sequence. *)
Theorem pilots_absent_until_first_success (u : Urls) (evs : list event) :
  forallb (λ ev, negb (is_resolve ev)) evs = true →
  let w := run evs (snd (initialize u)) in
  scope w !! "pilots" = None ∧ pilots w = VUndefined ∧ pilots w ≠ VArr [].
Proof.
  intros Hevs w.
  assert (H : scope w !! "pilots" = None).
  { subst w. rewrite run_keeps_pilots by (by try apply consistent_initialize).
    by rewrite initialize_unfold. }
  unfold pilots, get_prop. rewrite H. by repeat split.
Qed.

(** The theorem above at [failing_trace] on the page of [demo_urls]. *)
Lemma pilots_absent_on_failing_trace :
  forallb (λ ev, negb (is_resolve ev)) failing_trace = true ∧
  (let w := run failing_trace (snd (initialize demo_urls)) in
   scope w !! "pilots" = None ∧ pilots w = VUndefined ∧ pilots w ≠ VArr []).
Proof.
  split; [reflexivity|].
  apply (pilots_absent_until_first_success demo_urls failing_trace).
  reflexivity.
Defined.


(** * Further properties of the running page *)

(** ** What one event leaves alone *)

Ltac settle_cases Hw id how :=
  let rxs := fresh "rxs" in
  let Hid := fresh "Hid" in
  lazymatch goal with
  | |- context [settle id how ?w0] =>
      destruct (pending w0 !! id) as [rxs|] eqn:Hid
  end;
  [ rewrite (pending_getData _ Hw _ _ Hid) in Hid;
    destruct how as [?r|?r];
    [ rewrite (settle_fulfilled _ _ _ Hid)
    | rewrite (settle_rejected _ _ _ Hid) ]
  | rewrite (settle_not_pending _ _ _ Hid) ].

Section OneEvent.
Context (w : world) (Hw : consistent w).

Lemma settle_urls id how : urls (settle id how w) = urls w.
Proof. settle_cases Hw id how; done. Qed.

Lemma settle_wire id how : wire (settle id how w) = wire w.
Proof. settle_cases Hw id how; done. Qed.

Lemma settle_next_id id how : next_id (settle id how w) = next_id w.
Proof. settle_cases Hw id how; done. Qed.

Lemma settle_keeps k id how :
  k ≠ "pilots" → scope (settle id how w) !! k = scope w !! k.
Proof.
  intros Hk. settle_cases Hw id how; cbn; try done.
  by rewrite lookup_insert_ne.
Qed.

Lemma step_urls ev : urls (step ev w) = urls w.
Proof.
  destruct ev as [|p|v|id r|id r]; cbn [step]; quiet_writes Hw; try done.
  - by rewrite call_getData, getData_unfold.
  - apply settle_urls.
  - apply settle_urls.
Qed.

Lemma step_wire ev :
  wire (step ev w) = wire w ++ replicate (refreshes [ev]) (pilots_json (urls w)).
Proof.
  destruct ev as [|p|v|id r|id r]; cbn [step refreshes replicate];
    quiet_writes Hw.
  - by rewrite call_getData, getData_wire.
  - cbn. by rewrite app_nil_r.
  - cbn. by rewrite app_nil_r.
  - by rewrite settle_wire, app_nil_r.
  - by rewrite settle_wire, app_nil_r.
Qed.

Lemma step_next_id ev : next_id (step ev w) = next_id w + refreshes [ev].
Proof.
  destruct ev as [|p|v|id r|id r]; cbn [step refreshes]; quiet_writes Hw.
  - rewrite call_getData, getData_next_id by done. lia.
  - cbn. lia.
  - cbn. lia.
  - rewrite settle_next_id. lia.
  - rewrite settle_next_id. lia.
Qed.

Lemma step_currentPage ev :
  currentPage (step ev w) = page_after [ev] (currentPage w).
Proof.
  unfold currentPage, get_prop.
  destruct ev as [|p|v|id r|id r]; cbn [step page_after]; quiet_writes Hw.
  - by rewrite call_getData, getData_scope.
  - cbn. by rewrite lookup_insert_eq.
  - cbn. by rewrite lookup_insert_ne.
  - by rewrite settle_keeps.
  - by rewrite settle_keeps.
Qed.

Lemma step_pageSize ev :
  pageSize (step ev w) = size_after [ev] (pageSize w).
Proof.
  unfold pageSize, get_prop.
  destruct ev as [|p|v|id r|id r]; cbn [step size_after]; quiet_writes Hw.
  - by rewrite call_getData, getData_scope.
  - cbn. by rewrite lookup_insert_ne.
  - cbn. by rewrite lookup_insert_eq.
  - by rewrite settle_keeps.
  - by rewrite settle_keeps.
Qed.

Lemma settle_pilots_stay id how :
  is_Some (scope w !! "pilots") →
  is_Some (scope (settle id how w) !! "pilots").
Proof.
  intros Hp. settle_cases Hw id how; cbn; try done.
  by rewrite lookup_insert_eq.
Qed.

Lemma step_pilots_stay ev :
  is_Some (scope w !! "pilots") → is_Some (scope (step ev w) !! "pilots").
Proof.
  intros Hp. destruct ev as [|p|v|id r|id r]; cbn [step]; quiet_writes Hw.
  - by rewrite call_getData, getData_scope.
  - cbn. by rewrite lookup_insert_ne.
  - cbn. by rewrite lookup_insert_ne.
  - by apply settle_pilots_stay.
  - by apply settle_pilots_stay.
Qed.
End OneEvent.

(** ** Along a whole trace *)

Lemma run_app (evs1 evs2 : list event) :
  ∀ w, run (evs1 ++ evs2) w = run evs2 (run evs1 w).
Proof. induction evs1 as [|ev rest IH]; intros w; cbn; [done|apply IH]. Qed.

Lemma refreshes_cons (ev : event) (rest : list event) :
  refreshes (ev :: rest) = refreshes [ev] + refreshes rest.
Proof. by destruct ev. Qed.

Lemma page_after_cons (ev : event) (rest : list event) (page : value) :
  page_after (ev :: rest) page = page_after rest (page_after [ev] page).
Proof. by destruct ev. Qed.

Lemma size_after_cons (ev : event) (rest : list event) (size : value) :
  size_after (ev :: rest) size = size_after rest (size_after [ev] size).
Proof. by destruct ev. Qed.

Lemma run_urls (evs : list event) :
  ∀ w, consistent w → urls (run evs w) = urls w.
Proof.
  induction evs as [|ev rest IH]; intros w Hw; cbn [run]; [done|].
  rewrite IH by (by apply consistent_step). by apply step_urls.
Qed.

Lemma run_wire (evs : list event) :
  ∀ w, consistent w →
       wire (run evs w)
       = wire w ++ replicate (refreshes evs) (pilots_json (urls w)).
Proof.
  induction evs as [|ev rest IH]; intros w Hw; cbn [run].
  - cbn. by rewrite app_nil_r.
  - rewrite IH by (by apply consistent_step).
    rewrite step_wire, step_urls by done.
    rewrite (refreshes_cons ev rest), replicate_add. by rewrite app_assoc.
Qed.

Lemma run_next_id (evs : list event) :
  ∀ w, consistent w → next_id (run evs w) = next_id w + refreshes evs.
Proof.
  induction evs as [|ev rest IH]; intros w Hw; cbn [run].
  - cbn. lia.
  - rewrite IH by (by apply consistent_step).
    rewrite step_next_id by done. rewrite (refreshes_cons ev rest). lia.
Qed.

Lemma run_pagination (evs : list event) :
  ∀ w, consistent w →
       currentPage (run evs w) = page_after evs (currentPage w) ∧
       pageSize (run evs w) = size_after evs (pageSize w).
Proof.
  induction evs as [|ev rest IH]; intros w Hw; cbn [run]; [done|].
  destruct (IH _ (consistent_step _ Hw ev)) as [-> ->].
  rewrite step_currentPage, step_pageSize by done.
  by rewrite (page_after_cons ev rest), (size_after_cons ev rest).
Qed.

Lemma run_pilots_stay (evs : list event) :
  ∀ w, consistent w → is_Some (scope w !! "pilots") →
       is_Some (scope (run evs w) !! "pilots").
Proof.
  induction evs as [|ev rest IH]; intros w Hw Hp; cbn [run]; [done|].
  apply IH; [by apply consistent_step|by apply step_pilots_stay].
Qed.

Lemma consistent_reached (u : Urls) (evs : list event) :
  consistent (reached u evs).
Proof. apply consistent_run, consistent_initialize. Qed.

(** ** Requests sent *)

(** X1. The GETs on the wire after any events are exactly one for the
    controller body and one per call of [getData] by the view, every one to
    [urls.pilots_json]: responses, rejections and pagination writes send
    nothing, so there is no retry and no polling. *)
Theorem one_get_per_refresh (u : Urls) (evs : list event) :
  wire (reached u evs) = replicate (S (refreshes evs)) (pilots_json u) ∧
  urls (reached u evs) = u.
Proof.
  unfold reached.
  rewrite run_wire, run_urls by apply consistent_initialize.
  by rewrite initialize_unfold.
Qed.

(** X2. After any events nothing is left uncaught with the host: every
    rejection meets the error callback [getData] registered, and neither
    callback throws. *)
Theorem nothing_ever_uncaught (u : Urls) (evs : list event) :
  uncaught (reached u evs) = [].
Proof. apply cons_uncaught, consistent_reached. Qed.

(** X3. After any events [$scope.getData] is still the function the
    controller body stored, and calling it returns [undefined] without
    throwing, sends one more GET to [urls.pilots_json] and leaves the scope
    as it is until the request settles. *)
Theorem refresh_always_available (u : Urls) (evs : list event) :
  let w := reached u evs in
  scope w !! "getData" = Some (VFun FnGetData) ∧
  fst (call_method "getData" w) = Normal VUndefined ∧
  wire (snd (call_method "getData" w)) = wire w ++ [pilots_json u] ∧
  scope (snd (call_method "getData" w)) = scope w.
Proof.
  intros w. pose proof (consistent_reached u evs) as Hw. fold w in Hw.
  rewrite (call_getData _ Hw), getData_returns, getData_scope, getData_wire.
  assert (Hu : urls w = u)
    by (unfold w, reached; by rewrite run_urls by apply consistent_initialize).
  rewrite Hu. split; [apply (cons_getData _ Hw)|done].
Qed.

(** ** The list on display *)

(** X4. From any state of the page, events among which no request is
    fulfilled (refreshes still in flight, rejections, pagination writes)
    leave the [pilots] property exactly as it was: the list shown before a
    failed refresh is still shown after it. *)
Theorem failures_keep_shown_list (u : Urls) (pre post : list event) :
  forallb (λ ev, negb (is_resolve ev)) post = true →
  scope (reached u (pre ++ post)) !! "pilots"
  = scope (reached u pre) !! "pilots" ∧
  pilots (reached u (pre ++ post)) = pilots (reached u pre).
Proof.
  intros Hpost. unfold pilots, get_prop, reached. rewrite run_app.
  rewrite (run_keeps_pilots post) by (by try apply consistent_reached).
  done.
Qed.

(** The theorem above on a page that shows two pilots when a refresh
    fails. *)
Lemma failures_keep_two_pilots :
  forallb (λ ev, negb (is_resolve ev)) late_failure = true ∧
  (scope (reached demo_urls ([NetResolve 0 two_pilots] ++ late_failure))
     !! "pilots"
   = scope (reached demo_urls [NetResolve 0 two_pilots]) !! "pilots" ∧
   pilots (reached demo_urls ([NetResolve 0 two_pilots] ++ late_failure))
   = pilots (reached demo_urls [NetResolve 0 two_pilots])).
Proof.
  split; [reflexivity|].
  apply (failures_keep_shown_list demo_urls [NetResolve 0 two_pilots]
           late_failure).
  reflexivity.
Defined.

(** X5. Once a fulfilment has put a value in [pilots], no later event
    removes the property again: the controller has no code that clears or
    deletes it. *)
Theorem pilots_never_vanish (u : Urls) (pre post : list event) :
  is_Some (scope (reached u pre) !! "pilots") →
  is_Some (scope (reached u (pre ++ post)) !! "pilots").
Proof.
  intros Hp. unfold reached. rewrite run_app.
  apply run_pilots_stay; [apply consistent_reached|done].
Qed.

(** The theorem above on a page that shows two pilots when a refresh
    fails. *)
Lemma two_pilots_never_vanish :
  is_Some (scope (reached demo_urls [NetResolve 0 two_pilots]) !! "pilots") ∧
  is_Some (scope (reached demo_urls ([NetResolve 0 two_pilots] ++ late_failure))
             !! "pilots").
Proof.
  assert (H : is_Some (scope (reached demo_urls [NetResolve 0 two_pilots])
                         !! "pilots"))
    by (eexists; reflexivity).
  split; [exact H|].
  exact (pilots_never_vanish demo_urls [NetResolve 0 two_pilots]
           late_failure H).
Defined.

(** ** Pagination along a trace *)

(** X6. After any events [currentPage] is the number the view wrote last
    (the number 1 if it wrote none) and [pageSize] is the value the view
    wrote last (the text ['50'] if it wrote none): refreshes, fulfilments
    and rejections never change either field. *)
Theorem pagination_follows_view_writes (u : Urls) (evs : list event) :
  currentPage (reached u evs) = page_after evs (VNum 1) ∧
  pageSize (reached u evs) = size_after evs (VStr "50").
Proof.
  unfold reached.
  destruct (run_pagination evs _ (consistent_initialize u)) as [-> ->].
  by rewrite initialize_unfold.
Qed.

(** ** The properties of the scope *)

Lemma fields_initialize (u : Urls) :
  dom (scope (snd (initialize u)))
  = controller_fields ∪ list_field (snd (initialize u)).
Proof.
  rewrite initialize_unfold. unfold list_field, controller_fields; cbn.
  rewrite !dom_insert_L, dom_empty_L. set_solver.
Qed.

Lemma fields_assign (w : world) (k : string) (v : value) :
  dom (scope w) = controller_fields ∪ list_field w →
  k ∈ controller_fields →
  dom (scope (snd (on_scope (assign k v) w)))
  = controller_fields ∪ list_field (snd (on_scope (assign k v) w)).
Proof.
  intros Hdom Hk. cbn. rewrite dom_insert_L, Hdom.
  unfold list_field; cbn.
  apply set_eq; intros x. rewrite !elem_of_union, elem_of_singleton.
  split; [intros [->|?]; tauto|tauto].
Qed.

Lemma fields_settle (w : world) (id : nat) (how : settlement) :
  consistent w →
  dom (scope w) = controller_fields ∪ list_field w →
  dom (scope (settle id how w))
  = controller_fields ∪ list_field (settle id how w).
Proof.
  intros Hw Hdom.
  settle_cases Hw id how; unfold list_field in *; cbn; try done.
  rewrite dom_insert_L, Hdom.
  destruct (last_success (settled w)); set_solver.
Qed.

Lemma fields_step (w : world) (ev : event) :
  consistent w →
  dom (scope w) = controller_fields ∪ list_field w →
  dom (scope (step ev w)) = controller_fields ∪ list_field (step ev w).
Proof.
  intros Hw Hdom.
  destruct ev as [|p|v|id r|id r]; cbn [step]; quiet_writes Hw.
  - rewrite (call_getData _ Hw). unfold list_field.
    by rewrite getData_scope, getData_settled.
  - apply fields_assign; [done|]. unfold controller_fields. set_solver.
  - apply fields_assign; [done|]. unfold controller_fields. set_solver.
  - by apply fields_settle.
  - by apply fields_settle.
Qed.

Lemma fields_run (evs : list event) :
  ∀ w, consistent w →
       dom (scope w) = controller_fields ∪ list_field w →
       dom (scope (run evs w)) = controller_fields ∪ list_field (run evs w).
Proof.
  induction evs as [|ev rest IH]; intros w Hw Hdom; cbn [run]; [done|].
  apply IH; [by apply consistent_step|by apply fields_step].
Qed.

(** X7. After any events the scope holds exactly the three properties the
    controller body assigned ([getData], [currentPage], [pageSize]),
    together with [pilots] as soon as a request has been fulfilled and
    not before: the controller never creates an error, status or loading
    field. *)
Theorem scope_fields (u : Urls) (evs : list event) :
  dom (scope (reached u evs))
  = controller_fields ∪ list_field (reached u evs).
Proof.
  apply fields_run; [apply consistent_initialize|apply fields_initialize].
Qed.

(** ** Requests in flight and settled *)

Lemma accounted_initialize (u : Urls) : accounted (snd (initialize u)).
Proof.
  rewrite initialize_unfold. split; cbn.
  - intros id Hid. apply lookup_singleton_is_Some in Hid. lia.
  - intros id Hid. by apply elem_of_nil in Hid.
  - constructor.
  - by rewrite map_size_singleton.
  - done.
Qed.

Lemma accounted_getData (w : world) :
  accounted w → accounted (snd (getData w)).
Proof.
  intros [Hf Hs Hn Ht Hwire]. rewrite getData_unfold.
  assert (Hnew : pending w !! next_id w = None).
  { destruct (pending w !! next_id w) eqn:E; [|done].
    specialize (Hf (next_id w) (mk_is_Some _ _ E)). lia. }
  split; cbn.
  - intros id Hid. apply lookup_insert_is_Some' in Hid as [<-|Hid]; [lia|].
    specialize (Hf id Hid). lia.
  - intros id Hid. destruct (Hs id Hid) as [Hlt Hnone].
    split; [lia|]. apply lookup_insert_None. split; [done|lia].
  - done.
  - rewrite map_size_insert_None by done. lia.
  - rewrite Hwire. symmetry. apply replicate_S_end.
Qed.

Lemma accounted_gone (w : world) (id : nat) (how : settlement) (o : object) :
  accounted w →
  pending w !! id = Some [getData_reaction] →
  accounted
    {| urls := urls w; watchers := watchers w; scope := o;
       pending := delete id (pending w); next_id := next_id w;
       wire := wire w; settled := (id, how) :: settled w;
       uncaught := uncaught w |}.
Proof.
  intros [Hf Hs Hn Ht Hwire] Hid. split; cbn.
  - intros j Hj. apply lookup_delete_is_Some in Hj as [_ Hj]. by apply Hf.
  - intros j Hj. apply elem_of_cons in Hj as [->|Hj].
    + split; [apply Hf; by rewrite Hid|apply lookup_delete_eq].
    + destruct (Hs j Hj) as [Hlt Hnone].
      split; [done|]. apply lookup_delete_None. by right.
  - apply NoDup_cons. split; [|done].
    intros Hin. destruct (Hs id Hin) as [_ Hnone]. congruence.
  - assert (Hsz : size (pending w) = S (size (delete id (pending w)))).
    { rewrite <- (insert_delete_id _ _ _ Hid) at 1.
      apply map_size_insert_None, lookup_delete_eq. }
    lia.
  - done.
Qed.

Lemma accounted_settle (w : world) (id : nat) (how : settlement) :
  consistent w → accounted w → accounted (settle id how w).
Proof.
  intros Hw Ha. settle_cases Hw id how; [| |done]; by apply accounted_gone.
Qed.

Lemma accounted_assign (w : world) (k : string) (v : value) :
  accounted w → accounted (snd (on_scope (assign k v) w)).
Proof. intros [Hf Hs Hn Ht Hwire]. by split. Qed.

Lemma accounted_step (w : world) (ev : event) :
  consistent w → accounted w → accounted (step ev w).
Proof.
  intros Hw Ha.
  destruct ev as [|p|v|id r|id r]; cbn [step]; quiet_writes Hw.
  - rewrite (call_getData _ Hw). by apply accounted_getData.
  - by apply accounted_assign.
  - by apply accounted_assign.
  - by apply accounted_settle.
  - by apply accounted_settle.
Qed.

Lemma accounted_run (evs : list event) :
  ∀ w, consistent w → accounted w → accounted (run evs w).
Proof.
  induction evs as [|ev rest IH]; intros w Hw Ha; cbn [run]; [done|].
  apply IH; [by apply consistent_step|by apply accounted_step].
Qed.

(** X8. After any events the page has sent one request for the controller
    body and one per refresh; each of them is either still in flight,
    carrying exactly the one reaction [getData] registered, or has been
    settled exactly once, never both; none is dropped or cancelled. *)
Theorem requests_accounted (u : Urls) (evs : list event) :
  let w := reached u evs in
  next_id w = S (refreshes evs) ∧
  size (pending w) + length (settled w) = next_id w ∧
  map_Forall (λ id rxs,
      rxs = [getData_reaction] ∧ id < next_id w ∧ id ∉ (settled w).*1)
    (pending w) ∧
  NoDup (settled w).*1 ∧
  Forall (λ id, id < next_id w) (settled w).*1.
Proof.
  intros w.
  pose proof (consistent_reached u evs) as Hw. fold w in Hw.
  assert (Ha : accounted w)
    by (apply accounted_run;
        [apply consistent_initialize|apply accounted_initialize]).
  destruct Ha as [Hf Hs Hn Ht Hwire].
  split; [|split; [done|split; [|split; [done|]]]].
  - unfold w, reached. rewrite run_next_id by apply consistent_initialize.
    by rewrite initialize_unfold.
  - intros id rxs Hid. split; [|split].
    + by apply (pending_getData _ Hw id).
    + apply Hf. by rewrite Hid.
    + intros Hin. destruct (Hs id Hin) as [_ Hnone]. congruence.
  - apply Forall_forall. intros id Hin. by destruct (Hs id Hin).
Qed.

(** ** Pagination writes and the fetch do not interfere *)

Lemma settle_assign_commute
    (w : world) (k : string) (v : value) (id : nat) (how : settlement) :
  consistent w → k ≠ "pilots" → k ≠ "getData" →
  settle id how (snd (on_scope (assign k v) w))
  = snd (on_scope (assign k v) (settle id how w)).
Proof.
  intros Hw Hk1 Hk2.
  destruct (pending w !! id) as [rxs|] eqn:Hid.
  - rewrite (pending_getData _ Hw _ _ Hid) in Hid.
    destruct how as [r|r].
    + rewrite (settle_fulfilled w _ _ Hid).
      rewrite (settle_fulfilled (snd (on_scope (assign k v) w)) id r Hid).
      cbn. by rewrite (insert_insert_ne _ "pilots" k).
    + rewrite (settle_rejected w _ _ Hid).
      by rewrite (settle_rejected (snd (on_scope (assign k v) w)) id r Hid).
  - rewrite (settle_not_pending w _ _ Hid).
    by rewrite (settle_not_pending (snd (on_scope (assign k v) w)) id how Hid).
Qed.

Lemma getData_assign_commute (w : world) (k : string) (v : value) :
  consistent w → k ≠ "pilots" → k ≠ "getData" →
  snd (call_method "getData" (snd (on_scope (assign k v) w)))
  = snd (on_scope (assign k v) (snd (call_method "getData" w))).
Proof.
  intros Hw Hk1 Hk2.
  rewrite (call_getData _ (consistent_assign _ Hw k v Hk1 Hk2)).
  rewrite (call_getData _ Hw). by rewrite !getData_unfold.
Qed.

(** X9. In any state of the page a pagination write and a fetch event (a
    refresh, a fulfilment or a rejection) can happen in either order with
    the same resulting state: the fetch never reads or writes the
    pagination fields and a write never touches the list or a request. *)
Theorem writes_commute_with_fetch
    (u : Urls) (evs : list event) (wr ev : event) :
  is_write wr = true → is_write ev = false →
  let w := reached u evs in
  step wr (step ev w) = step ev (step wr w).
Proof.
  intros Hwr Hev w.
  pose proof (consistent_reached u evs) as Hw. fold w in Hw.
  destruct wr as [|p|v| |]; try discriminate;
    destruct ev as [| | |id r|id r]; try discriminate; cbn [step];
      rewrite ?(setPage_quiet _ Hw), ?(setPageSize_quiet _ Hw),
        ?(setPage_quiet _ (consistent_step _ Hw ViewRefresh)),
        ?(setPageSize_quiet _ (consistent_step _ Hw ViewRefresh)),
        ?(setPage_quiet _ (consistent_settle _ Hw _ _)),
        ?(setPageSize_quiet _ (consistent_settle _ Hw _ _));
      symmetry;
      solve [ by apply getData_assign_commute
            | by apply settle_assign_commute ].
Qed.

(** The theorem above for a page change while the second request is in
    flight. *)
Lemma page_change_commutes_with_response :
  is_write (ViewSetPage 2) = true ∧
  is_write (NetResolve 1 two_pilots) = false ∧
  (let w := reached demo_urls [ViewRefresh] in
   step (ViewSetPage 2) (step (NetResolve 1 two_pilots) w)
   = step (NetResolve 1 two_pilots) (step (ViewSetPage 2) w)).
Proof.
  split; [reflexivity|]. split; [reflexivity|].
  apply (writes_commute_with_fetch demo_urls [ViewRefresh]
           (ViewSetPage 2) (NetResolve 1 two_pilots)); reflexivity.
Defined.
